(** * brazilcep.apicep: the ApiCEP adapter

    A shallow embedding of [fetch_address] from [brazilcep/apicep.py] and
    the properties of its request / classify / normalize contract.

    Python values are modelled as follows.
    - [str] is a [string]: the UTF-8 encoding of the text, so that the
      literals below read exactly as in the source (["é"] is the two bytes
      C3 A9 there as well).  UTF-8 is self-synchronising, so equality and
      substring search agree with Python's on code points.
    - [int] is [Z]; [float] is [spec_float], the exact IEEE value.
    - [dict] with [str] keys is a [gmap string _].
    - a raised exception is the [Raise] branch of [result]. *)

From Stdlib Require Import ZArith String Ascii List Lia.
From Stdlib Require Import Floats.SpecFloat.
From stdpp Require Import base option gmap strings list fin_maps pretty.

Set Warnings "-register-all".

Local Open Scope string_scope.
Local Open Scope Z_scope.

(** ** JSON values, as [json.loads] produces them *)

Inductive json : Type :=
  | JNull
  | JBool (b : bool)
  | JInt (n : Z)
  | JFloat (f : spec_float)
  | JStr (s : string)
  | JArr (l : list json)
  | JObj (m : gmap string json).

(** The exact value of a float against an integer: Python compares an
    [int] and a [float] exactly, without rounding the integer. *)
Definition float_eq_int (f : spec_float) (n : Z) : bool :=
  match f with
  | S754_zero _ => n =? 0
  | S754_infinity _ => false
  | S754_nan => false
  | S754_finite s m e =>
      let v := if s then Z.neg m else Z.pos m in
      if 0 <=? e then v * 2 ^ e =? n else v =? n * 2 ^ (- e)
  end.

(** [v == n] for an integer literal [n]. *)
Definition eq_int (v : json) (n : Z) : bool :=
  match v with
  | JInt k => k =? n
  | JFloat f => float_eq_int f n
  | JBool b => (if b then 1 else 0) =? n
  | _ => false
  end.

(** [v == s] for a string literal [s]. *)
Definition eq_str (v : json) (s : string) : bool :=
  match v with
  | JStr t => bool_decide (t = s)
  | _ => false
  end.

(** Python truthiness, as used by [or]. *)
Definition truthy (v : json) : bool :=
  match v with
  | JNull => false
  | JBool b => b
  | JInt n => negb (n =? 0)
  | JFloat (S754_zero _) => false
  | JFloat _ => true
  | JStr s => negb (bool_decide (s = ""))
  | JArr l => negb (bool_decide (length l = 0%nat))
  | JObj m => negb (bool_decide (size m = 0%nat))
  end.

(** ** Exceptions *)

(** Classes of the transport library that the [except] clauses name; any
    other class is identified by its name. *)
Inductive exc_class : Type :=
  | requests_ConnectionError
  | requests_HTTPError
  | requests_URLRequired
  | requests_TooManyRedirects
  | requests_Timeout
  | other_class (name : string).

Global Instance exc_class_eq_dec : EqDecision exc_class.
Proof. solve_decision. Defined.

(** An exception object raised by the transport: the classes it is an
    instance of (its own class and all its bases) and its message. *)
Record transport_exc : Type := {
  exc_classes : list exc_class;
  exc_message : string
}.

(** [isinstance(exc, cls)], the test an [except cls] clause performs. *)
Definition isinstance (exc : transport_exc) (cls : exc_class) : bool :=
  bool_decide (cls ∈ exc_classes exc).

(** Modelled from the spec: the module [brazilcep/exceptions.py] is not
    among the sources; section 7 of the specification lists its kinds, each
    a distinct kind under the one base [BrazilCEPException].  The five
    transport kinds are built from the original failure they wrap, the base
    error from its message. *)
Module exceptions.
Inductive t : Type :=
  | BrazilCEPException (msg : string)
  | InvalidCEP
  | CEPNotFound
  | BlockedByFlood
  | ConnectionError (exc : transport_exc)
  | HTTPError (exc : transport_exc)
  | URLRequired (exc : transport_exc)
  | TooManyRedirects (exc : transport_exc)
  | Timeout (exc : transport_exc).
End exceptions.

(** Everything a call can raise: an error of the taxonomy, a transport
    exception passing through uncaught, or one of the interpreter's own. *)
Inductive raised : Type :=
  | Classified (e : exceptions.t)
  | Uncaught (exc : transport_exc)
  | JSONDecodeError
  | KeyError (key : string)
  | TypeError
  | AttributeError
  | ValueError
  | IndexError.

Inductive result (A : Type) : Type :=
  | Ok (a : A)
  | Raise (e : raised).
Arguments Ok {A} a.
Arguments Raise {A} e.

(** Sequencing: the first exception raised ends the evaluation. *)
Global Instance result_bind : MBind result := λ A B k r,
  match r with
  | Ok a => k a
  | Raise e => Raise e
  end.

(** ** The Python operations the adapter uses *)

(** [v[key]] with a string key: only a dict can be indexed by one. *)
Definition subscript (v : json) (key : string) : result json :=
  match v with
  | JObj m =>
      match m !! key with
      | Some x => Ok x
      | None => Raise (KeyError key)
      end
  | _ => Raise TypeError
  end.

(** [v.get(key)]: [None] for a missing key. *)
Definition get (v : json) (key : string) : result json :=
  match v with
  | JObj m => Ok (default JNull (m !! key))
  | _ => Raise AttributeError
  end.

(** [a or b]. *)
Definition or_ (a b : json) : json := if truthy a then a else b.

(** The scan of [str.split]: [skip] counts the bytes of a separator just
    matched that are still to be passed over, [cur] is the piece being
    collected. *)
Fixpoint split_go (sep : string) (skip : nat) (cur s : string) : list string :=
  match s with
  | EmptyString => [cur]
  | String c s' =>
      match skip with
      | S k => split_go sep k cur s'
      | O =>
          if String.prefix sep s
          then cur :: split_go sep (String.length sep - 1) "" s'
          else split_go sep 0 (cur +:+ String c "") s'
      end
  end.

(** [s.split(sep)]: an empty separator is a [ValueError]. *)
Definition split (s sep : string) : result (list string) :=
  if bool_decide (sep = "") then Raise ValueError
  else Ok (split_go sep 0 "" s).

(** [v.split(sep)]: only a [str] has the method here. *)
Definition method_split (v : json) (sep : string) : result (list string) :=
  match v with
  | JStr s => split s sep
  | _ => Raise AttributeError
  end.

(** [l[0]]. *)
Definition item0 (l : list string) : result string :=
  match l with
  | x :: _ => Ok x
  | [] => Raise IndexError
  end.

(** [str(n)], the decimal text an f-string puts for an [int]. *)
Definition str_int (n : Z) : string := pretty n.

(** ** The adapter *)

(** A response: its status code, and its text held as what [json.loads]
    makes of it ([None] when the text is not JSON). *)
Record response : Type := {
  status_code : Z;
  text : option json
}.

(** [json.loads(s)]. *)
Definition loads (s : option json) : result json :=
  match s with
  | Some v => Ok v
  | None => Raise JSONDecodeError
  end.

(** What [requests.get] does: it returns a response or raises. *)
Inductive transport : Type :=
  | Responded (r : response)
  | Failed (exc : transport_exc).

Definition URL_format (cep : string) : string :=
  "https://ws.apicep.com/cep/" +:+ cep +:+ ".json".

(** [address["status"] == 400 and address["message"] == msg]; the second
    lookup is made only when the first comparison holds. *)
Definition status_400_and_message (address : json) (msg : string) : result bool :=
  st ← subscript address "status";
  if eq_int st 400 then
    m ← subscript address "message";
    Ok (eq_str m msg)
  else Ok false.

(** The dict display returned on success, evaluated entry by entry. *)
Definition address_record (address : json) : result (gmap string json) :=
  district ← get address "district";
  code ← get address "code";
  city ← get address "city";
  addr ← get address "address";
  pieces ← method_split (or_ addr (JStr "")) " - até";
  street ← item0 pieces;
  state ← get address "state";
  Ok ({[ "district" := or_ district (JStr "");
         "cep" := or_ code (JStr "");
         "city" := or_ city (JStr "");
         "street" := JStr street;
         "uf" := or_ state (JStr "");
         "complement" := JStr "" ]} : gmap string json).

(** The [except] clauses, tried in the order they are written. *)
Definition reraise (exc : transport_exc) : raised :=
  if isinstance exc requests_ConnectionError then
    Classified (exceptions.ConnectionError exc)
  else if isinstance exc requests_HTTPError then
    Classified (exceptions.HTTPError exc)
  else if isinstance exc requests_URLRequired then
    Classified (exceptions.URLRequired exc)
  else if isinstance exc requests_TooManyRedirects then
    Classified (exceptions.TooManyRedirects exc)
  else if isinstance exc requests_Timeout then
    Classified (exceptions.Timeout exc)
  else Uncaught exc.

(** The part of [fetch_address] after the [try] statement. *)
Definition interpret (response : response) : result (gmap string json) :=
  if status_code response =? 200 then
    address ← loads (text response);
    invalid ← status_400_and_message address "CEP informado é inválido";
    if invalid : bool then Raise (Classified exceptions.InvalidCEP) else
    flood ← status_400_and_message address "Blocked by flood";
    if flood : bool then Raise (Classified exceptions.BlockedByFlood) else
    st ← subscript address "status";
    if eq_int st 404 then Raise (Classified exceptions.CEPNotFound) else
    address_record address
  else if status_code response =? 429 then
    Raise (Classified exceptions.BlockedByFlood)
  else
    Raise (Classified (exceptions.BrazilCEPException
      ("Other error. Status code: " +:+ str_int (status_code response)))).

Section adapter.

(** The HTTP GET of the transport library, the one call made. *)
Variable requests_get :
  string → option Z → option (gmap string string) → transport.

(** [fetch_address(cep, timeout, proxies)]. *)
Definition fetch_address (cep : string) (timeout : option Z)
    (proxies : option (gmap string string)) : result (gmap string json) :=
  match requests_get (URL_format cep) timeout proxies with
  | Failed exc => Raise (reraise exc)
  | Responded response => interpret response
  end.

End adapter.

(** A transport that gives every request the same outcome. *)
Definition always (r : transport) :
    string → option Z → option (gmap string string) → transport :=
  λ _ _ _, r.

Definition answer (code : Z) (body : json) : transport :=
  Responded {| status_code := code; text := Some body |}.

Definition sample_fields : gmap string json :=
  {[ "status" := JInt 200;
     "code" := JStr "01001-000";
     "address" := JStr "Rua X - até 999" ]}.

Definition sample_body : json := JObj sample_fields.

(** ** What the specification speaks of *)

(** [sep] occurs somewhere in [s]. *)
Definition contains (sep s : string) : Prop :=
  ∃ a b, s = a +:+ sep +:+ b.

(** [pre] is the part of [s] before the first occurrence of [sep]. *)
Definition first_at (sep pre s : string) : Prop :=
  (∃ post, s = pre +:+ sep +:+ post) ∧
  ∀ a b, s = a +:+ sep +:+ b → (String.length pre ≤ String.length a)%nat.

(** The "address" entry can be split: it is missing, falsy, or a [str]. *)
Definition address_splits (m : gmap string json) : bool :=
  match default JNull (m !! "address") with
  | JStr _ => true
  | v => negb (truthy v)
  end.

(** A well-formed body: a JSON object with a "status" entry, a "message"
    entry whenever the status equals 400, and an "address" that can be
    split. *)
Definition well_formed (body : json) : bool :=
  match body with
  | JObj m =>
      match m !! "status" with
      | Some st =>
          (if eq_int st 400 then bool_decide (is_Some (m !! "message")) else true)
          && address_splits m
      | None => false
      end
  | _ => false
  end.

(** A body classified as an error: status 400 with one of the two
    recognized messages, or status 404. *)
Definition is_error (body : json) : bool :=
  match body with
  | JObj m =>
      match m !! "status" with
      | Some st =>
          eq_int st 400
            && (let msg := default JNull (m !! "message") in
                eq_str msg "CEP informado é inválido"
                || eq_str msg "Blocked by flood")
          || eq_int st 404
      | None => false
      end
  | _ => false
  end.

(** The keys of an address record. *)
Definition record_keys : gset string :=
  {[ "district"; "cep"; "city"; "street"; "uf"; "complement" ]}.


(** The street entry, [(address.get("address") or "").split(" - até")[0]]. *)
Definition street_of (m : gmap string json) : result string :=
  pieces ← method_split (or_ (default JNull (m !! "address")) (JStr "")) " - até";
  item0 pieces.

(** The record built from the body [m] once its street is known. *)
Definition record_with (m : gmap string json) (street : string) : gmap string json :=
  {[ "district" := or_ (default JNull (m !! "district")) (JStr "");
     "cep" := or_ (default JNull (m !! "code")) (JStr "");
     "city" := or_ (default JNull (m !! "city")) (JStr "");
     "street" := JStr street;
     "uf" := or_ (default JNull (m !! "state")) (JStr "");
     "complement" := JStr "" ]}.

(** The classes the [except] clauses catch. *)
Definition caught_classes : list exc_class :=
  [ requests_ConnectionError; requests_HTTPError; requests_URLRequired;
    requests_TooManyRedirects; requests_Timeout ].

(** ** The paths through [fetch_address]

    Every way the function can end, each with the conditions that lead
    there, read off the source from top to bottom. *)
Inductive path : transport → result (gmap string json) → Prop :=
  | path_failed exc :
      path (Failed exc) (Raise (reraise exc))
  | path_429 resp :
      status_code resp = 429 →
      path (Responded resp) (Raise (Classified exceptions.BlockedByFlood))
  | path_other resp :
      status_code resp ≠ 200 → status_code resp ≠ 429 →
      path (Responded resp)
        (Raise (Classified (exceptions.BrazilCEPException
           ("Other error. Status code: " +:+ str_int (status_code resp)))))
  | path_not_json resp :
      status_code resp = 200 → text resp = None →
      path (Responded resp) (Raise JSONDecodeError)
  | path_not_dict resp v :
      status_code resp = 200 → text resp = Some v → (∀ m, v ≠ JObj m) →
      path (Responded resp) (Raise TypeError)
  | path_no_status resp m :
      status_code resp = 200 → text resp = Some (JObj m) →
      m !! "status" = None →
      path (Responded resp) (Raise (KeyError "status"))
  | path_invalid resp m st :
      status_code resp = 200 → text resp = Some (JObj m) →
      m !! "status" = Some st → eq_int st 400 = true →
      m !! "message" = Some (JStr "CEP informado é inválido") →
      path (Responded resp) (Raise (Classified exceptions.InvalidCEP))
  | path_flood resp m st :
      status_code resp = 200 → text resp = Some (JObj m) →
      m !! "status" = Some st → eq_int st 400 = true →
      m !! "message" = Some (JStr "Blocked by flood") →
      path (Responded resp) (Raise (Classified exceptions.BlockedByFlood))
  | path_no_message resp m st :
      status_code resp = 200 → text resp = Some (JObj m) →
      m !! "status" = Some st → eq_int st 400 = true →
      m !! "message" = None →
      path (Responded resp) (Raise (KeyError "message"))
  | path_not_found resp m st :
      status_code resp = 200 → text resp = Some (JObj m) →
      m !! "status" = Some st → eq_int st 404 = true →
      path (Responded resp) (Raise (Classified exceptions.CEPNotFound))
  | path_bad_address resp m st :
      status_code resp = 200 → text resp = Some (JObj m) →
      m !! "status" = Some st → eq_int st 404 = false →
      (eq_int st 400 = true →
       ∃ msg, m !! "message" = Some msg ∧
         msg ≠ JStr "CEP informado é inválido" ∧
         msg ≠ JStr "Blocked by flood") →
      address_splits m = false →
      path (Responded resp) (Raise AttributeError)
  | path_record resp m st street :
      status_code resp = 200 → text resp = Some (JObj m) →
      m !! "status" = Some st → eq_int st 404 = false →
      (eq_int st 400 = true →
       ∃ msg, m !! "message" = Some msg ∧
         msg ≠ JStr "CEP informado é inválido" ∧
         msg ≠ JStr "Blocked by flood") →
      street_of m = Ok street →
      path (Responded resp) (Ok (record_with m street)).

(** The four record keys filled by [x or ""], with their upstream field. *)
Definition copied_fields : list (string * string) :=
  [ ("district", "district"); ("code", "cep"); ("city", "city");
    ("state", "uf") ].

(** A status written as text, and falsy values where text is expected. *)
Definition text_status_fields : gmap string json :=
  {[ "status" := JStr "404"; "city" := JInt 0; "district" := JInt 7;
     "address" := JBool false ]}.

(** A body whose address is a street already cut. *)
Definition cut_fields : gmap string json :=
  {[ "status" := JInt 200; "address" := JStr "Rua X" ]}.

(** ** Sample exchanges *)

Definition invalid_fields : gmap string json :=
  {[ "status" := JInt 400; "message" := JStr "CEP informado é inválido" ]}.

Definition flood_fields : gmap string json :=
  {[ "status" := JInt 400; "message" := JStr "Blocked by flood" ]}.

Definition not_found_fields : gmap string json :=
  {[ "status" := JInt 404; "message" := JStr "CEP não encontrado" ]}.

(** A 400 body with a message that is not one of the two recognized. *)
Definition unrecognized_fields : gmap string json :=
  {[ "status" := JInt 400; "message" := JStr "Erro interno";
     "city" := JStr "Recife" ]}.

(** The same with a number where the address should be. *)
Definition unrecognized_fields_bad_address : gmap string json :=
  {[ "status" := JInt 400; "message" := JStr "Erro interno";
     "address" := JInt 5 ]}.

(** A body with a status and a number where the address should be. *)
Definition bad_address_fields : gmap string json :=
  {[ "status" := JInt 200; "address" := JInt 5 ]}.

(** A 400 body without a message. *)
Definition no_message_fields : gmap string json :=
  {[ "status" := JInt 400 ]}.

(** A plain read timeout of the transport library, declared there as
    [class ReadTimeout(Timeout)]. *)
Definition read_timeout : transport_exc :=
  {| exc_classes := [ other_class "ReadTimeout"; requests_Timeout;
                      other_class "RequestException"; other_class "OSError";
                      other_class "Exception"; other_class "BaseException" ];
     exc_message := "Read timed out." |}.

(** A connect timeout of the transport library, declared there as
    [class ConnectTimeout(ConnectionError, Timeout)]: an instance of both
    bases. *)
Definition connect_timeout : transport_exc :=
  {| exc_classes := [ other_class "ConnectTimeout"; requests_ConnectionError;
                      requests_Timeout; other_class "RequestException";
                      other_class "OSError"; other_class "Exception";
                      other_class "BaseException" ];
     exc_message := "Connection to ws.apicep.com timed out." |}.

Definition sample_record : gmap string json :=
  {[ "district" := JStr ""; "cep" := JStr "01001-000";
     "city" := JStr ""; "street" := JStr "Rua X";
     "uf" := JStr ""; "complement" := JStr "" ]}.

(** * Properties *)

Example truthy_obj : truthy (JObj {[ "a" := JNull ]}) = true.
Proof. reflexivity. Qed.

Example split_range :
  split "Rua X - até 999" " - até" = Ok ["Rua X"; " 999"].
Proof. reflexivity. Qed.

Example split_twice :
  split "a - até b - até" " - até" = Ok ["a"; " b"; ""].
Proof. reflexivity. Qed.

Example split_none : split "Rua X" " - até" = Ok ["Rua X"].
Proof. reflexivity. Qed.

Example fetch_sample :
  fetch_address (always (answer 200 sample_body)) "01001000" None None
  = Ok sample_record.
Proof. reflexivity. Qed.

Example fetch_500 :
  fetch_address (always (answer 500 JNull)) "01001000" None None
  = Raise (Classified (exceptions.BrazilCEPException
             "Other error. Status code: 500")).
Proof. reflexivity. Qed.

Example fetch_address_int :
  fetch_address
    (always (answer 200 (JObj {[ "status" := JInt 200; "address" := JInt 5 ]})))
    "01001000" None None
  = Raise AttributeError.
Proof. reflexivity. Qed.

(** ** Strings *)

Lemma append_cons (c : ascii) (s t : string) :
  String c s +:+ t = String c (s +:+ t).
Proof. reflexivity. Qed.

Lemma append_nil_r (s : string) : s +:+ "" = s.
Proof.
  induction s as [|c s IH]; [done |]. by rewrite append_cons, IH.
Qed.

Lemma append_assoc (a b c : string) : (a +:+ b) +:+ c = a +:+ b +:+ c.
Proof.
  induction a as [|x a IH]; [done |]. by rewrite !append_cons, IH.
Qed.

Lemma length_append (a b : string) :
  String.length (a +:+ b) = (String.length a + String.length b)%nat.
Proof.
  induction a as [|x a IH]; [done |]. rewrite append_cons. simpl. by rewrite IH.
Qed.

Lemma prefix_true (p s : string) :
  String.prefix p s = true → ∃ t, s = p +:+ t.
Proof.
  revert s; induction p as [|c p IH]; intros s H.
  - by exists s.
  - destruct s as [|d s]; simpl in H; [done |].
    destruct (ascii_dec c d) as [->|]; [| done].
    destruct (IH s H) as [t ->]. by exists t.
Qed.

Lemma prefix_append (p t : string) : String.prefix p (p +:+ t) = true.
Proof.
  induction p as [|c p IH].
  - by destruct t.
  - rewrite append_cons. simpl. destruct (ascii_dec c c); [done | congruence].
Qed.

Lemma split_go_absent (sep cur s : string) :
  ¬ contains sep s → split_go sep 0 cur s = [cur +:+ s].
Proof.
  revert cur; induction s as [|c s IH]; intros cur Hno; cbn [split_go].
  - by rewrite append_nil_r.
  - destruct (String.prefix sep (String c s)) eqn:Hp.
    + destruct Hno. apply prefix_true in Hp as [t Ht].
      exists "", t. by rewrite Ht.
    + rewrite IH.
      * rewrite append_assoc. reflexivity.
      * intros (a & b & ->). apply Hno. by exists (String c a), b.
Qed.

Lemma split_go_first (sep cur pre s : string) :
  sep ≠ "" → first_at sep pre s →
  ∃ rest, split_go sep 0 cur s = (cur +:+ pre) :: rest.
Proof.
  intros Hsep. revert cur s; induction pre as [|c pre IH];
    intros cur s [[post ->] Hmin].
  - destruct sep as [|d sep]; [done |].
    change ("" +:+ String d sep +:+ post) with (String d (sep +:+ post)).
    cbn [split_go].
    change (String d (sep +:+ post)) with (String d sep +:+ post).
    rewrite prefix_append, append_nil_r. eauto.
  - rewrite append_cons. cbn [split_go].
    destruct (String.prefix sep _) eqn:Hp.
    + apply prefix_true in Hp as [t Ht].
      specialize (Hmin "" t). rewrite append_cons in Hmin.
      specialize (Hmin Ht). simpl in Hmin. lia.
    + destruct (IH (cur +:+ String c "") (pre +:+ sep +:+ post)) as [rest Hr].
      * split; [by exists post |]. intros a b Hab.
        specialize (Hmin (String c a) b). rewrite !append_cons, Hab in Hmin.
        specialize (Hmin eq_refl). simpl in Hmin. lia.
      * rewrite Hr, append_assoc. by eexists.
Qed.

Lemma split_go_nonempty (sep : string) (skip : nat) (cur s : string) :
  ∃ x rest, split_go sep skip cur s = x :: rest.
Proof.
  revert skip cur; induction s as [|c s IH]; intros skip cur; cbn [split_go].
  - by eexists _, _.
  - destruct skip; [| apply IH].
    destruct (String.prefix sep (String c s)); [by eexists _, _ | apply IH].
Qed.

(** ** Comparisons *)

Lemma eq_str_true (v : json) (s : string) : eq_str v s = true ↔ v = JStr s.
Proof.
  destruct v; simpl; try (split; [done | congruence]).
  rewrite bool_decide_eq_true. split; congruence.
Qed.

Lemma float_404_not_400 (f : spec_float) :
  float_eq_int f 404 = true → float_eq_int f 400 = false.
Proof.
  destruct f as [s| s | | s m e]; simpl; try done.
  destruct (0 <=? e) eqn:He; intros H%Z.eqb_eq; apply Z.eqb_neq; [lia |].
  apply Z.leb_gt in He.
  assert (0 < 2 ^ (- e)) by (apply Z.pow_pos_nonneg; lia). lia.
Qed.

Lemma eq_int_404_not_400 (v : json) :
  eq_int v 404 = true → eq_int v 400 = false.
Proof.
  destruct v as [|b|n|f| | |]; simpl; try done.
  - by destruct b.
  - intros H%Z.eqb_eq. apply Z.eqb_neq. lia.
  - apply float_404_not_400.
Qed.

(** ** The body of a 200 response, case by case *)

Ltac run := unfold mbind, result_bind; simpl.

Lemma address_record_obj (m : gmap string json) :
  address_record (JObj m) = street ← street_of m; Ok (record_with m street).
Proof.
  unfold address_record, street_of. run.
  by destruct (method_split _ _) as [pieces|e].
Qed.

Lemma or_str (a : string) : or_ (JStr a) (JStr "") = JStr a.
Proof.
  unfold or_; simpl. case_bool_decide; simpl; congruence.
Qed.

Lemma street_of_str (m : gmap string json) (a : string) :
  m !! "address" = Some (JStr a) →
  ∃ rest, Ok (split_go " - até" 0 "" a) = Ok rest ∧ street_of m = item0 rest.
Proof.
  intros Ha. unfold street_of. rewrite Ha. simpl. rewrite or_str.
  eexists. split; [done |]. reflexivity.
Qed.

Lemma street_of_first (m : gmap string json) (a pre : string) :
  m !! "address" = Some (JStr a) → first_at " - até" pre a →
  street_of m = Ok pre.
Proof.
  intros Ha Hfirst. destruct (street_of_str m a Ha) as (rest & [= <-] & ->).
  destruct (split_go_first " - até" "" pre a) as [tl ->]; done.
Qed.

Lemma street_of_absent (m : gmap string json) (a : string) :
  m !! "address" = Some (JStr a) → ¬ contains " - até" a →
  street_of m = Ok a.
Proof.
  intros Ha Hno. destruct (street_of_str m a Ha) as (rest & [= <-] & ->).
  by rewrite split_go_absent.
Qed.

Lemma street_of_missing (m : gmap string json) :
  m !! "address" = None ∨ m !! "address" = Some JNull →
  street_of m = Ok "".
Proof. unfold street_of. by intros [-> | ->]. Qed.

Lemma street_of_splits (m : gmap string json) :
  address_splits m = true → ∃ street, street_of m = Ok street.
Proof.
  unfold address_splits, street_of, or_.
  destruct (truthy (default JNull (m !! "address"))) eqn:Htr.
  - destruct (default JNull (m !! "address")) as [|b|n|f|a| |];
      intros H; try (rewrite Htr in H; discriminate).
    simpl. unfold split. simpl.
    destruct (split_go_nonempty " - até" 0 "" a) as (x & rest & ->).
    by eexists.
  - intros _. eexists. reflexivity.
Qed.

Lemma street_of_not_splits (m : gmap string json) :
  address_splits m = false → street_of m = Raise AttributeError.
Proof.
  unfold address_splits, street_of, or_.
  destruct (default JNull (m !! "address")) as [|b|n|f|a| |];
    intros H; try done; apply negb_false_iff in H; by rewrite H.
Qed.

Lemma interpret_not_json (resp : response) :
  status_code resp = 200 → text resp = None →
  interpret resp = Raise JSONDecodeError.
Proof. intros Hc Ht. unfold interpret. by rewrite Hc, Ht. Qed.

Lemma interpret_object (resp : response) (m : gmap string json) (st : json) :
  status_code resp = 200 → text resp = Some (JObj m) → m !! "status" = Some st →
  interpret resp =
    if eq_int st 404 then Raise (Classified exceptions.CEPNotFound)
    else if eq_int st 400 then
      match m !! "message" with
      | None => Raise (KeyError "message")
      | Some msg =>
          if eq_str msg "CEP informado é inválido"
          then Raise (Classified exceptions.InvalidCEP)
          else if eq_str msg "Blocked by flood"
          then Raise (Classified exceptions.BlockedByFlood)
          else address_record (JObj m)
      end
    else address_record (JObj m).
Proof.
  intros Hc Ht Hst. unfold interpret, status_400_and_message.
  rewrite Hc, Ht. run. rewrite Hst.
  destruct (eq_int st 404) eqn:H404.
  - by rewrite (eq_int_404_not_400 _ H404).
  - destruct (eq_int st 400); [| done].
    destruct (m !! "message") as [msg|]; [| done]. simpl.
    destruct (eq_str msg "CEP informado é inválido"); [done |].
    by destruct (eq_str msg "Blocked by flood").
Qed.

Lemma interpret_not_object (resp : response) (v : json) :
  status_code resp = 200 → text resp = Some v →
  (∀ m st, v = JObj m → m !! "status" = Some st → False) →
  ∃ e, interpret resp = Raise e ∧ ∀ c, e ≠ Classified c.
Proof.
  intros Hc Ht Hno. unfold interpret, status_400_and_message.
  rewrite Hc, Ht. run.
  destruct v as [| | | | | |m]; try by eexists.
  unfold subscript.
  destruct (m !! "status") as [st|] eqn:Hst; [| by eexists].
  destruct (Hno m st); done.
Qed.

Lemma interpret_other_code (resp : response) :
  status_code resp ≠ 200 →
  interpret resp =
    if status_code resp =? 429
    then Raise (Classified exceptions.BlockedByFlood)
    else Raise (Classified (exceptions.BrazilCEPException
           ("Other error. Status code: " +:+ str_int (status_code resp)))).
Proof.
  intros Hc. unfold interpret. by apply Z.eqb_neq in Hc as ->.
Qed.

(** A returned record comes from a 200 response whose body is an object
    with a status, and is the record of that body. *)
Lemma fetch_address_Ok requests_get cep timeout proxies r :
  fetch_address requests_get cep timeout proxies = Ok r →
  ∃ resp m st street,
    requests_get (URL_format cep) timeout proxies = Responded resp ∧
    status_code resp = 200 ∧ text resp = Some (JObj m) ∧
    m !! "status" = Some st ∧
    street_of m = Ok street ∧ r = record_with m street.
Proof.
  unfold fetch_address.
  destruct (requests_get _ _ _) as [resp|exc] eqn:Hget; [| done].
  intros Hr.
  destruct (decide (status_code resp = 200)) as [Hc|Hc]; last first.
  { rewrite interpret_other_code in Hr by done. by destruct (_ =? 429). }
  destruct (text resp) as [v|] eqn:Ht; last first.
  { by rewrite interpret_not_json in Hr. }
  assert (∃ m st, v = JObj m ∧ m !! "status" = Some st) as (m & st & -> & Hst).
  { destruct v as [| | | | | |m];
      try (destruct (interpret_not_object resp _ Hc Ht) as (e & He & _);
           [by intros | congruence]).
    destruct (m !! "status") as [st|] eqn:Hst; [by eexists _, _ |].
    destruct (interpret_not_object resp _ Hc Ht) as (e & He & _); [| congruence].
    intros ?? [= <-]. congruence. }
  rewrite (interpret_object resp m st) in Hr by done.
  assert (address_record (JObj m) = Ok r) as Hrec.
  { destruct (eq_int st 404); [done |].
    destruct (eq_int st 400); [| done].
    destruct (m !! "message") as [msg|]; [| done].
    destruct (eq_str msg "CEP informado é inválido"); [done |].
    by destruct (eq_str msg "Blocked by flood"). }
  rewrite address_record_obj in Hrec.
  destruct (street_of m) as [street|e] eqn:Hs; [| done].
  injection Hrec as <-. by exists resp, m, st, street.
Qed.

(** ** Records *)


Lemma or_truthy (v : json) : truthy v = true → or_ v (JStr "") = v.
Proof. unfold or_. by intros ->. Qed.


Lemma record_with_lookup (m : gmap string json) (street : string) :
  record_with m street !! "district"
    = Some (or_ (default JNull (m !! "district")) (JStr "")) ∧
  record_with m street !! "cep"
    = Some (or_ (default JNull (m !! "code")) (JStr "")) ∧
  record_with m street !! "city"
    = Some (or_ (default JNull (m !! "city")) (JStr "")) ∧
  record_with m street !! "street" = Some (JStr street) ∧
  record_with m street !! "uf"
    = Some (or_ (default JNull (m !! "state")) (JStr "")) ∧
  record_with m street !! "complement" = Some (JStr "").
Proof. unfold record_with. repeat split; by simplify_map_eq. Qed.

Lemma record_with_dom (m : gmap string json) (street : string) :
  dom (record_with m street) = record_keys.
Proof.
  unfold record_with, record_keys. rewrite !dom_insert_L, dom_singleton_L.
  set_solver.
Qed.

(** ** The adapter, path by path *)

Lemma fetch_address_responded requests_get cep timeout proxies resp :
  requests_get (URL_format cep) timeout proxies = Responded resp →
  fetch_address requests_get cep timeout proxies = interpret resp.
Proof. unfold fetch_address. by intros ->. Qed.

Lemma fetch_address_success requests_get cep timeout proxies resp m st :
  requests_get (URL_format cep) timeout proxies = Responded resp →
  status_code resp = 200 → text resp = Some (JObj m) →
  m !! "status" = Some st →
  eq_int st 404 = false →
  (eq_int st 400 = true →
   ∃ msg, m !! "message" = Some msg ∧
     eq_str msg "CEP informado é inválido" = false ∧
     eq_str msg "Blocked by flood" = false) →
  address_splits m = true →
  ∃ street, street_of m = Ok street ∧
    fetch_address requests_get cep timeout proxies = Ok (record_with m street).
Proof.
  intros Hget Hc Ht Hst H404 H400 Hsplit.
  destruct (street_of_splits m Hsplit) as [street Hs]. exists street.
  split; [done |].
  rewrite (fetch_address_responded _ _ _ _ _ Hget).
  rewrite (interpret_object resp m st) by done.
  rewrite H404, address_record_obj, Hs.
  destruct (eq_int st 400); [| done].
  destruct H400 as (msg & -> & -> & ->); done.
Qed.

Lemma well_formed_inv (body : json) :
  well_formed body = true →
  ∃ m st, body = JObj m ∧ m !! "status" = Some st ∧
    (eq_int st 400 = true → is_Some (m !! "message")) ∧
    address_splits m = true.
Proof.
  destruct body as [| | | | | |m]; try done. simpl.
  destruct (m !! "status") as [st|] eqn:Hst; [| done].
  intros [H1 H2]%andb_true_iff. exists m, st.
  split; [done |]. split; [done |]. split; [| done].
  intros H400. rewrite H400 in H1. by apply bool_decide_eq_true in H1.
Qed.

(** C1: a 200 response whose body is well formed and not classified as an
    error makes [fetch_address] return a record with exactly the six keys
    district, cep, city, street, uf and complement; complement is the empty
    string, cep is the upstream code and uf the upstream state. *)
Theorem success_record requests_get cep timeout proxies resp body :
  requests_get (URL_format cep) timeout proxies = Responded resp →
  status_code resp = 200 → text resp = Some body →
  well_formed body = true → is_error body = false →
  ∃ m r, body = JObj m ∧
    fetch_address requests_get cep timeout proxies = Ok r ∧
    dom r = record_keys ∧
    r !! "complement" = Some (JStr "") ∧
    (∀ v, m !! "code" = Some v → truthy v = true → r !! "cep" = Some v) ∧
    (∀ v, m !! "state" = Some v → truthy v = true → r !! "uf" = Some v).
Proof.
  intros Hget Hc Ht Hwf Herr.
  destruct (well_formed_inv body Hwf) as (m & st & -> & Hst & Hmsg & Hsplit).
  simpl in Herr. rewrite Hst in Herr.
  apply orb_false_iff in Herr as [H400 H404].
  destruct (fetch_address_success requests_get cep timeout proxies resp m st)
    as (street & Hs & Hr); try done.
  { intros E. rewrite E in H400. destruct (Hmsg E) as [msg Hm].
    rewrite Hm in H400. simpl in H400. apply orb_false_iff in H400.
    by exists msg. }
  exists m, (record_with m street).
  destruct (record_with_lookup m street) as (_ & Hcep & _ & _ & Huf & Hcompl).
  split; [done |]. split; [done |]. split; [apply record_with_dom |].
  split; [done |]. split.
  - intros v Hv Htr. by rewrite Hcep, Hv, or_truthy.
  - intros v Hv Htr. by rewrite Huf, Hv, or_truthy.
Qed.

Lemma success_record_witness :
  ∃ m r, sample_body = JObj m ∧
    fetch_address (always (answer 200 sample_body)) "01001000" None None = Ok r ∧
    dom r = record_keys ∧
    r !! "complement" = Some (JStr "") ∧
    (∀ v, m !! "code" = Some v → truthy v = true → r !! "cep" = Some v) ∧
    (∀ v, m !! "state" = Some v → truthy v = true → r !! "uf" = Some v).
Proof.
  apply (success_record (always (answer 200 sample_body)) "01001000" None None
           {| status_code := 200; text := Some sample_body |});
    reflexivity.
Defined.

Lemma responded_inj {A B C : Type} (requests_get : A → B → C → transport)
    (url : A) (timeout : B) (proxies : C) (resp resp' : response)
    (m m' : gmap string json) :
  requests_get url timeout proxies = Responded resp →
  text resp = Some (JObj m) →
  requests_get url timeout proxies = Responded resp' →
  text resp' = Some (JObj m') →
  m' = m.
Proof. intros H1 H2 H3 H4. congruence. Qed.





(** ** Errors reported in the body *)

(** C3: a 200 response whose body has status equal to 400 and message equal
    to "CEP informado é inválido" makes [fetch_address] raise [InvalidCEP];
    no value is returned. *)
Theorem invalid_cep_raised requests_get cep timeout proxies resp m st :
  requests_get (URL_format cep) timeout proxies = Responded resp →
  status_code resp = 200 → text resp = Some (JObj m) →
  m !! "status" = Some st → eq_int st 400 = true →
  m !! "message" = Some (JStr "CEP informado é inválido") →
  fetch_address requests_get cep timeout proxies
    = Raise (Classified exceptions.InvalidCEP) ∧
  ∀ r, fetch_address requests_get cep timeout proxies ≠ Ok r.
Proof.
  intros Hget Hc Ht Hst H400 Hmsg.
  assert (fetch_address requests_get cep timeout proxies
            = Raise (Classified exceptions.InvalidCEP)) as ->; [| done].
  rewrite (fetch_address_responded _ _ _ _ _ Hget).
  rewrite (interpret_object resp m st) by done.
  rewrite H400, Hmsg.
  destruct (eq_int st 404) eqn:H404; [| done].
  by rewrite (eq_int_404_not_400 _ H404) in H400.
Qed.

Lemma invalid_cep_raised_witness :
  fetch_address (always (answer 200 (JObj invalid_fields))) "00000000" None None
    = Raise (Classified exceptions.InvalidCEP) ∧
  ∀ r, fetch_address (always (answer 200 (JObj invalid_fields))) "00000000" None None
         ≠ Ok r.
Proof.
  apply (invalid_cep_raised (always (answer 200 (JObj invalid_fields))) "00000000"
           None None {| status_code := 200; text := Some (JObj invalid_fields) |}
           invalid_fields (JInt 400));
    reflexivity.
Defined.

(** C5: a 200 response whose body has status equal to 404 makes
    [fetch_address] raise [CEPNotFound]; no value is returned.  Such a body
    is never classified as [InvalidCEP] or [BlockedByFlood] first, since its
    status does not equal 400. *)
Theorem cep_not_found_raised requests_get cep timeout proxies resp m st :
  requests_get (URL_format cep) timeout proxies = Responded resp →
  status_code resp = 200 → text resp = Some (JObj m) →
  m !! "status" = Some st → eq_int st 404 = true →
  fetch_address requests_get cep timeout proxies
    = Raise (Classified exceptions.CEPNotFound) ∧
  ∀ r, fetch_address requests_get cep timeout proxies ≠ Ok r.
Proof.
  intros Hget Hc Ht Hst H404.
  assert (fetch_address requests_get cep timeout proxies
            = Raise (Classified exceptions.CEPNotFound)) as ->; [| done].
  rewrite (fetch_address_responded _ _ _ _ _ Hget).
  rewrite (interpret_object resp m st) by done. by rewrite H404.
Qed.

Lemma cep_not_found_raised_witness :
  fetch_address (always (answer 200 (JObj not_found_fields))) "99999999" None None
    = Raise (Classified exceptions.CEPNotFound) ∧
  ∀ r, fetch_address (always (answer 200 (JObj not_found_fields))) "99999999" None None
         ≠ Ok r.
Proof.
  apply (cep_not_found_raised (always (answer 200 (JObj not_found_fields))) "99999999"
           None None {| status_code := 200; text := Some (JObj not_found_fields) |}
           not_found_fields (JInt 404));
    reflexivity.
Defined.

(** ** Errors reported by the status code *)

Lemma str_int_inj (n k : Z) : str_int n = str_int k → n = k.
Proof. unfold str_int. apply (inj pretty). Qed.

(** C6: a response whose status code is neither 200 nor 429 makes
    [fetch_address] raise the base error [BrazilCEPException]; its message
    contains the decimal text of that status code, which names no other
    number; no value is returned. *)
Theorem other_status_raised requests_get cep timeout proxies resp :
  requests_get (URL_format cep) timeout proxies = Responded resp →
  status_code resp ≠ 200 → status_code resp ≠ 429 →
  ∃ msg,
    fetch_address requests_get cep timeout proxies
      = Raise (Classified (exceptions.BrazilCEPException msg)) ∧
    msg = "Other error. Status code: " +:+ str_int (status_code resp) ∧
    contains (str_int (status_code resp)) msg ∧
    (∀ n, str_int n = str_int (status_code resp) → n = status_code resp) ∧
    ∀ r, fetch_address requests_get cep timeout proxies ≠ Ok r.
Proof.
  intros Hget H200 H429. eexists.
  rewrite (fetch_address_responded _ _ _ _ _ Hget).
  rewrite interpret_other_code by done.
  apply Z.eqb_neq in H429 as ->.
  split; [done |]. split; [done |]. split; [| split; [| done]].
  - exists "Other error. Status code: ", "". by rewrite append_nil_r.
  - intros n. apply str_int_inj.
Qed.

Lemma other_status_raised_witness :
  ∃ msg,
    fetch_address (always (answer 500 JNull)) "01001000" None None
      = Raise (Classified (exceptions.BrazilCEPException msg)) ∧
    msg = "Other error. Status code: " +:+ str_int 500 ∧
    contains (str_int 500) msg ∧
    (∀ n, str_int n = str_int 500 → n = 500) ∧
    ∀ r, fetch_address (always (answer 500 JNull)) "01001000" None None ≠ Ok r.
Proof.
  apply (other_status_raised (always (answer 500 JNull)) "01001000" None None
           {| status_code := 500; text := Some JNull |});
    [reflexivity | simpl; lia | simpl; lia].
Defined.

Lemma address_record_cases (m : gmap string json) :
  (∃ street, street_of m = Ok street ∧
     address_record (JObj m) = Ok (record_with m street)) ∨
  address_record (JObj m) = Raise AttributeError.
Proof.
  rewrite address_record_obj.
  destruct (address_splits m) eqn:Hsplit.
  - left. destruct (street_of_splits m Hsplit) as [street Hs].
    exists street. by rewrite Hs.
  - right. by rewrite (street_of_not_splits m Hsplit).
Qed.

Lemma reraise_cases (exc : transport_exc) :
  (∃ e, reraise exc = Classified e ∧
     e ≠ exceptions.BlockedByFlood ∧ e ≠ exceptions.InvalidCEP ∧
     e ≠ exceptions.CEPNotFound) ∨
  reraise exc = Uncaught exc.
Proof.
  unfold reraise.
  repeat (destruct (isinstance exc _); [left; by eexists |]). by right.
Qed.

(** C4: [fetch_address] raises [BlockedByFlood] in exactly two cases: a 200
    response whose body has status equal to 400 and message equal to
    "Blocked by flood", and a response with status code 429, whatever its
    body. *)
Theorem blocked_by_flood_iff requests_get cep timeout proxies :
  fetch_address requests_get cep timeout proxies
    = Raise (Classified exceptions.BlockedByFlood)
  ↔ ∃ resp,
      requests_get (URL_format cep) timeout proxies = Responded resp ∧
      ((status_code resp = 200 ∧
        ∃ m st, text resp = Some (JObj m) ∧ m !! "status" = Some st ∧
          eq_int st 400 = true ∧
          m !! "message" = Some (JStr "Blocked by flood"))
       ∨ status_code resp = 429).
Proof.
  split.
  - unfold fetch_address.
    destruct (requests_get _ _ _) as [resp|exc] eqn:Hget.
    2: { destruct (reraise_cases exc) as [(e & -> & He & _) | ->]; congruence. }
    intros Hr. exists resp. split; [done |].
    destruct (decide (status_code resp = 200)) as [Hc|Hc]; last first.
    { right. rewrite interpret_other_code in Hr by done.
      destruct (status_code resp =? 429) eqn:E; [by apply Z.eqb_eq | done]. }
    left. split; [done |].
    destruct (text resp) as [v|] eqn:Ht; last first.
    { by rewrite interpret_not_json in Hr. }
    assert (∃ m st, v = JObj m ∧ m !! "status" = Some st) as (m & st & -> & Hst).
    { destruct v as [| | | | | |m];
        try (destruct (interpret_not_object resp _ Hc Ht) as (e & He & Hne);
             [by intros | rewrite He in Hr; injection Hr as ->;
                          destruct (Hne _ eq_refl)]).
      destruct (m !! "status") as [st|] eqn:Hst; [by eexists _, _ |].
      destruct (interpret_not_object resp _ Hc Ht) as (e & He & Hne).
      - intros ?? [= <-]. congruence.
      - rewrite He in Hr. injection Hr as ->. destruct (Hne _ eq_refl). }
    exists m, st. split; [done |]. split; [done |].
    rewrite (interpret_object resp m st) in Hr by done.
    destruct (eq_int st 404); [done |].
    destruct (eq_int st 400).
    + split; [done |].
      destruct (m !! "message") as [msg|]; [| done].
      destruct (eq_str msg "CEP informado é inválido"); [done |].
      destruct (eq_str msg "Blocked by flood") eqn:Hf.
      * by apply eq_str_true in Hf as ->.
      * destruct (address_record_cases m) as [(street & _ & H) | H];
          rewrite H in Hr; done.
    + destruct (address_record_cases m) as [(street & _ & H) | H];
        rewrite H in Hr; done.
  - intros (resp & Hget & Hcase).
    rewrite (fetch_address_responded _ _ _ _ _ Hget).
    destruct Hcase as [(Hc & m & st & Ht & Hst & H400 & Hmsg) | Hc].
    + rewrite (interpret_object resp m st) by done. rewrite H400, Hmsg.
      destruct (eq_int st 404) eqn:H404; [| done].
      by rewrite (eq_int_404_not_400 _ H404) in H400.
    + rewrite interpret_other_code by lia. by apply Z.eqb_eq in Hc as ->.
Qed.

Lemma blocked_by_flood_iff_witness :
  fetch_address (always (answer 200 (JObj flood_fields))) "01001000" None None
    = Raise (Classified exceptions.BlockedByFlood) ∧
  fetch_address (always (answer 429 JNull)) "01001000" None None
    = Raise (Classified exceptions.BlockedByFlood).
Proof.
  split.
  - apply blocked_by_flood_iff. eexists. split; [reflexivity |].
    left. split; [reflexivity |]. by exists flood_fields, (JInt 400).
  - apply blocked_by_flood_iff. eexists. split; [reflexivity |]. by right.
Defined.

(** ** Transport failures *)

Lemma fetch_address_failed requests_get cep timeout proxies exc :
  requests_get (URL_format cep) timeout proxies = Failed exc →
  fetch_address requests_get cep timeout proxies = Raise (reraise exc).
Proof. unfold fetch_address. by intros ->. Qed.

(** C7, as the code has it: a transport failure that is an instance of one
    of the five classes named by the [except] clauses is raised again as the
    classified error of the first such class in the order connection error,
    HTTP error, URL required, too many redirects, timeout, wrapping the
    original failure; it never propagates raw, and no transport failure
    returns a value.  A timeout raises [Timeout] when it is an instance of
    none of the four classes tried before. *)
Theorem transport_failure_classified requests_get cep timeout proxies exc :
  requests_get (URL_format cep) timeout proxies = Failed exc →
  (isinstance exc requests_ConnectionError = true →
     fetch_address requests_get cep timeout proxies
       = Raise (Classified (exceptions.ConnectionError exc))) ∧
  (isinstance exc requests_ConnectionError = false →
   isinstance exc requests_HTTPError = true →
     fetch_address requests_get cep timeout proxies
       = Raise (Classified (exceptions.HTTPError exc))) ∧
  (isinstance exc requests_ConnectionError = false →
   isinstance exc requests_HTTPError = false →
   isinstance exc requests_URLRequired = true →
     fetch_address requests_get cep timeout proxies
       = Raise (Classified (exceptions.URLRequired exc))) ∧
  (isinstance exc requests_ConnectionError = false →
   isinstance exc requests_HTTPError = false →
   isinstance exc requests_URLRequired = false →
   isinstance exc requests_TooManyRedirects = true →
     fetch_address requests_get cep timeout proxies
       = Raise (Classified (exceptions.TooManyRedirects exc))) ∧
  (isinstance exc requests_ConnectionError = false →
   isinstance exc requests_HTTPError = false →
   isinstance exc requests_URLRequired = false →
   isinstance exc requests_TooManyRedirects = false →
   isinstance exc requests_Timeout = true →
     fetch_address requests_get cep timeout proxies
       = Raise (Classified (exceptions.Timeout exc))) ∧
  ((∃ cls, cls ∈ caught_classes ∧ isinstance exc cls = true) →
     ∃ e, fetch_address requests_get cep timeout proxies
            = Raise (Classified e)) ∧
  (∀ r, fetch_address requests_get cep timeout proxies ≠ Ok r).
Proof.
  intros Hget. rewrite (fetch_address_failed _ _ _ _ _ Hget). unfold reraise.
  repeat split.
  - by intros ->.
  - by intros -> ->.
  - by intros -> -> ->.
  - by intros -> -> -> ->.
  - by intros -> -> -> -> ->.
  - intros (cls & Hcls & Hinst). unfold caught_classes in Hcls.
    repeat (apply elem_of_cons in Hcls as [-> | Hcls]);
      [| | | | | by apply elem_of_nil in Hcls];
      (destruct (isinstance exc requests_ConnectionError); [by eexists |]);
      (destruct (isinstance exc requests_HTTPError); [by eexists |]);
      (destruct (isinstance exc requests_URLRequired); [by eexists |]);
      (destruct (isinstance exc requests_TooManyRedirects); [by eexists |]);
      (destruct (isinstance exc requests_Timeout); [by eexists |]);
      discriminate Hinst.
  - done.
Qed.

Lemma transport_failure_classified_witness :
  fetch_address (always (Failed read_timeout)) "01001000" None None
    = Raise (Classified (exceptions.Timeout read_timeout)).
Proof.
  destruct (transport_failure_classified (always (Failed read_timeout))
              "01001000" None None read_timeout eq_refl)
    as (_ & _ & _ & _ & Htimeout & _).
  apply Htimeout; reflexivity.
Defined.

(** C7 as stated fails: a connect timeout is a transport timeout, yet it is
    raised again as [ConnectionError], not as [Timeout]. *)
Lemma connect_timeout_not_Timeout :
  isinstance connect_timeout requests_Timeout = true ∧
  fetch_address (always (Failed connect_timeout)) "01001000" None None
    = Raise (Classified (exceptions.ConnectionError connect_timeout)) ∧
  fetch_address (always (Failed connect_timeout)) "01001000" None None
    ≠ Raise (Classified (exceptions.Timeout connect_timeout)).
Proof. split; [reflexivity |]. split; [reflexivity | discriminate]. Qed.

(** ** Bodies that are not classified as errors *)

(** C9, as the code has it: a 200 response whose body has a status equal
    to 400 and carries a message that is neither of the two recognized
    ones makes [fetch_address] raise no error and return the record built
    from that body, provided its address is missing, falsy or a string.
    More generally, under the same condition on the address, every body
    whose status is not equal to 404 and which, whenever its status equals
    400, carries a message that is neither recognized one, is treated as a
    success.  A body with status 400 and no message at all is not among
    them. *)
Theorem unrecognized_is_success requests_get cep timeout proxies resp m st :
  requests_get (URL_format cep) timeout proxies = Responded resp →
  status_code resp = 200 → text resp = Some (JObj m) →
  m !! "status" = Some st →
  eq_int st 404 = false →
  (eq_int st 400 = true →
   ∃ msg, m !! "message" = Some msg ∧
     msg ≠ JStr "CEP informado é inválido" ∧ msg ≠ JStr "Blocked by flood") →
  address_splits m = true →
  ∃ street, street_of m = Ok street ∧
    fetch_address requests_get cep timeout proxies = Ok (record_with m street).
Proof.
  intros Hget Hc Ht Hst H404 H400 Hsplit.
  apply (fetch_address_success _ _ _ _ resp m st); try done.
  intros E. destruct (H400 E) as (msg & Hm & Hinv & Hflood).
  exists msg. split; [done |].
  split; apply not_true_is_false; by rewrite eq_str_true.
Qed.

Lemma unrecognized_is_success_witness :
  ∃ street, street_of unrecognized_fields = Ok street ∧
    fetch_address (always (answer 200 (JObj unrecognized_fields)))
      "01001000" None None
    = Ok (record_with unrecognized_fields street).
Proof.
  apply (unrecognized_is_success _ _ _ _
           {| status_code := 200; text := Some (JObj unrecognized_fields) |}
           unrecognized_fields (JInt 400));
    try reflexivity.
  intros _. exists (JStr "Erro interno"). by repeat split.
Defined.

(** C9 as stated fails: a 400 body with an unrecognized message and a number
    for its address raises [AttributeError] instead of returning a record. *)
Lemma unrecognized_bad_address_raises :
  unrecognized_fields_bad_address !! "status" = Some (JInt 400) ∧
  unrecognized_fields_bad_address !! "message" = Some (JStr "Erro interno") ∧
  fetch_address (always (answer 200 (JObj unrecognized_fields_bad_address)))
    "01001000" None None
  = Raise AttributeError.
Proof. by repeat split. Qed.

(** ** Termination of the 200 path *)

(** C10, as the code has it: for a 200 response whose body is a JSON object
    with a "status" entry, with a "message" entry whenever the status equals
    400, and with an address that is missing, falsy or a string,
    [fetch_address] ends with a record or with one of the classified errors;
    the lookups of "status" and "message" do not fail.  A body with status
    400 and no "message" entry is outside the precondition: there the
    lookup raises [KeyError]. *)
Theorem ok_path_terminates requests_get cep timeout proxies resp m st :
  requests_get (URL_format cep) timeout proxies = Responded resp →
  status_code resp = 200 → text resp = Some (JObj m) →
  m !! "status" = Some st →
  ((eq_int st 400 = true → is_Some (m !! "message")) →
   address_splits m = true →
   (∃ r, fetch_address requests_get cep timeout proxies = Ok r) ∨
   (∃ e, fetch_address requests_get cep timeout proxies
           = Raise (Classified e))) ∧
  (eq_int st 400 = true → m !! "message" = None →
   fetch_address requests_get cep timeout proxies
     = Raise (KeyError "message")).
Proof.
  intros Hget Hc Ht Hst.
  rewrite (fetch_address_responded _ _ _ _ _ Hget).
  rewrite (interpret_object resp m st) by done.
  split.
  - intros Hmsg Hsplit.
    destruct (street_of_splits m Hsplit) as [street Hs].
    assert (address_record (JObj m) = Ok (record_with m street)) as Hrec.
    { by rewrite address_record_obj, Hs. }
    destruct (eq_int st 404); [right; by eexists |].
    destruct (eq_int st 400); [| left; by eexists].
    destruct (Hmsg eq_refl) as [msg ->].
    destruct (eq_str msg "CEP informado é inválido"); [right; by eexists |].
    destruct (eq_str msg "Blocked by flood"); [right; by eexists |].
    left; by eexists.
  - intros H400 Hnone. rewrite H400, Hnone.
    destruct (eq_int st 404) eqn:H404; [| done].
    by rewrite (eq_int_404_not_400 _ H404) in H400.
Qed.

Lemma ok_path_terminates_witness :
  (∃ r, fetch_address (always (answer 200 sample_body)) "01001000" None None
          = Ok r) ∨
  (∃ e, fetch_address (always (answer 200 sample_body)) "01001000" None None
          = Raise (Classified e)).
Proof.
  destruct (ok_path_terminates (always (answer 200 sample_body)) "01001000"
              None None {| status_code := 200; text := Some sample_body |}
              sample_fields (JInt 200) eq_refl eq_refl eq_refl eq_refl)
    as [Hterm _].
  apply Hterm; [discriminate | reflexivity].
Defined.

(** C10 as stated fails: a body with a "status" entry and a number for its
    address ends with [AttributeError], which is neither a record nor a
    classified error. *)
Lemma bad_address_not_classified :
  bad_address_fields !! "status" = Some (JInt 200) ∧
  eq_int (JInt 200) 400 = false ∧
  fetch_address (always (answer 200 (JObj bad_address_fields)))
    "01001000" None None
  = Raise AttributeError ∧
  (∀ r, fetch_address (always (answer 200 (JObj bad_address_fields)))
          "01001000" None None ≠ Ok r) ∧
  (∀ e, fetch_address (always (answer 200 (JObj bad_address_fields)))
          "01001000" None None ≠ Raise (Classified e)).
Proof. by repeat split. Qed.

(** The unguarded lookup on a 400 body without a message. *)
Example no_message_key_error :
  fetch_address (always (answer 200 (JObj no_message_fields)))
    "01001000" None None
  = Raise (KeyError "message").
Proof. reflexivity. Qed.

(** ** Every path, and no other *)

Lemma interpret_no_dict (resp : response) (v : json) :
  status_code resp = 200 → text resp = Some v → (∀ m, v ≠ JObj m) →
  interpret resp = Raise TypeError.
Proof.
  intros Hc Ht Hno. unfold interpret, status_400_and_message.
  rewrite Hc, Ht. destruct v; try done. by destruct (Hno m).
Qed.

Lemma interpret_no_status (resp : response) (m : gmap string json) :
  status_code resp = 200 → text resp = Some (JObj m) → m !! "status" = None →
  interpret resp = Raise (KeyError "status").
Proof.
  intros Hc Ht Hst. unfold interpret, status_400_and_message.
  rewrite Hc, Ht. run. by rewrite Hst.
Qed.

Lemma address_splits_of_street (m : gmap string json) (street : string) :
  street_of m = Ok street → address_splits m = true.
Proof.
  intros Hs. destruct (address_splits m) eqn:E; [done |].
  by rewrite (street_of_not_splits m E) in Hs.
Qed.

Lemma unrecognized_eq_str (msg : json) :
  msg ≠ JStr "CEP informado é inválido" ∧ msg ≠ JStr "Blocked by flood" ↔
  eq_str msg "CEP informado é inválido" = false ∧
  eq_str msg "Blocked by flood" = false.
Proof.
  rewrite <- !not_true_iff_false, !eq_str_true. tauto.
Qed.

Lemma eq_int_400_not_404 (v : json) :
  eq_int v 400 = true → eq_int v 404 = false.
Proof.
  intros H. destruct (eq_int v 404) eqn:E; [| done].
  by rewrite (eq_int_404_not_400 v E) in H.
Qed.

Lemma address_record_on_path (resp : response) (m : gmap string json) (st : json) :
  status_code resp = 200 → text resp = Some (JObj m) →
  m !! "status" = Some st → eq_int st 404 = false →
  (eq_int st 400 = true →
   ∃ msg, m !! "message" = Some msg ∧
     msg ≠ JStr "CEP informado é inválido" ∧ msg ≠ JStr "Blocked by flood") →
  path (Responded resp) (address_record (JObj m)).
Proof.
  intros Hc Ht Hst H404 H400. rewrite address_record_obj.
  destruct (address_splits m) eqn:Hsplit.
  - destruct (street_of_splits m Hsplit) as [street Hs]. rewrite Hs.
    by eapply path_record.
  - rewrite (street_of_not_splits m Hsplit). by eapply path_bad_address.
Qed.

(** What [interpret] returns lies on a path. *)
Lemma interpret_on_path (resp : response) :
  path (Responded resp) (interpret resp).
Proof.
  destruct (decide (status_code resp = 200)) as [Hc|Hc]; last first.
  { rewrite interpret_other_code by done.
    destruct (status_code resp =? 429) eqn:E.
    - apply path_429. by apply Z.eqb_eq.
    - apply path_other; [done |]. by apply Z.eqb_neq. }
  destruct (text resp) as [v|] eqn:Ht; last first.
  { rewrite interpret_not_json by done. by apply path_not_json. }
  destruct v as [|b|n|f|s|l|m];
    try (rewrite (interpret_no_dict resp _ Hc Ht) by done;
         by eapply path_not_dict).
  destruct (m !! "status") as [st|] eqn:Hst; last first.
  { rewrite (interpret_no_status resp m) by done. by eapply path_no_status. }
  rewrite (interpret_object resp m st) by done.
  destruct (eq_int st 404) eqn:H404; [by eapply path_not_found |].
  destruct (eq_int st 400) eqn:H400; last first.
  { apply (address_record_on_path resp m st); try done. congruence. }
  destruct (m !! "message") as [msg|] eqn:Hmsg; last first.
  { by eapply path_no_message. }
  destruct (eq_str msg "CEP informado é inválido") eqn:Hinv.
  { apply eq_str_true in Hinv as ->. by eapply path_invalid. }
  destruct (eq_str msg "Blocked by flood") eqn:Hflood.
  { apply eq_str_true in Hflood as ->. by eapply path_flood. }
  apply (address_record_on_path resp m st); try done.
  intros _. exists msg. split; [done |]. by apply unrecognized_eq_str.
Qed.

(** A path ends where [interpret] does. *)
Lemma path_interpret (resp : response) (out : result (gmap string json)) :
  path (Responded resp) out → interpret resp = out.
Proof.
  inversion 1; subst;
    try match goal with
        | Hst : ?m !! "status" = Some ?st |- _ =>
            rewrite (interpret_object resp m st) by done
        end;
    repeat match goal with
           | H : eq_int _ 400 = true |- _ =>
               rewrite (eq_int_400_not_404 _ H), H; clear H
           | H : eq_int _ 404 = _ |- _ => rewrite H; clear H
           | H : _ !! "message" = _ |- _ => rewrite H; clear H
           end;
    try done.
  - rewrite interpret_other_code by lia.
    by match goal with H : status_code _ = 429 |- _ => rewrite H end.
  - rewrite interpret_other_code by done.
    by match goal with H : _ ≠ 429 |- _ => apply Z.eqb_neq in H as -> end.
  - by apply interpret_not_json.
  - by eapply interpret_no_dict.
  - by eapply interpret_no_status.
  - match goal with H : address_splits _ = false |- _ =>
      rewrite address_record_obj, (street_of_not_splits _ H) end.
    destruct (eq_int st 400); [| done].
    match goal with H : _ → ∃ _, _ |- _ =>
      destruct H as (msg & -> & Hu); [done |] end.
    by apply unrecognized_eq_str in Hu as [-> ->].
  - match goal with H : street_of _ = Ok _ |- _ =>
      rewrite address_record_obj, H end.
    destruct (eq_int st 400); [| done].
    match goal with H : _ → ∃ _, _ |- _ =>
      destruct H as (msg & -> & Hu); [done |] end.
    by apply unrecognized_eq_str in Hu as [-> ->].
Qed.

(** [fetch_address] ends in [out] exactly when a path leads there. *)
Lemma fetch_address_path requests_get cep timeout proxies out :
  fetch_address requests_get cep timeout proxies = out ↔
  path (requests_get (URL_format cep) timeout proxies) out.
Proof.
  unfold fetch_address.
  destruct (requests_get _ _ _) as [resp|exc].
  - split; [intros <-; apply interpret_on_path | apply path_interpret].
  - split; [intros <-; apply path_failed | by inversion 1].
Qed.

Lemma reraise_inv (exc : transport_exc) :
  (isinstance exc requests_ConnectionError = true ∧
     reraise exc = Classified (exceptions.ConnectionError exc)) ∨
  (isinstance exc requests_ConnectionError = false ∧
   isinstance exc requests_HTTPError = true ∧
     reraise exc = Classified (exceptions.HTTPError exc)) ∨
  (isinstance exc requests_ConnectionError = false ∧
   isinstance exc requests_HTTPError = false ∧
   isinstance exc requests_URLRequired = true ∧
     reraise exc = Classified (exceptions.URLRequired exc)) ∨
  (isinstance exc requests_ConnectionError = false ∧
   isinstance exc requests_HTTPError = false ∧
   isinstance exc requests_URLRequired = false ∧
   isinstance exc requests_TooManyRedirects = true ∧
     reraise exc = Classified (exceptions.TooManyRedirects exc)) ∨
  (isinstance exc requests_ConnectionError = false ∧
   isinstance exc requests_HTTPError = false ∧
   isinstance exc requests_URLRequired = false ∧
   isinstance exc requests_TooManyRedirects = false ∧
   isinstance exc requests_Timeout = true ∧
     reraise exc = Classified (exceptions.Timeout exc)) ∨
  (isinstance exc requests_ConnectionError = false ∧
   isinstance exc requests_HTTPError = false ∧
   isinstance exc requests_URLRequired = false ∧
   isinstance exc requests_TooManyRedirects = false ∧
   isinstance exc requests_Timeout = false ∧
     reraise exc = Uncaught exc).
Proof.
  unfold reraise.
  destruct (isinstance exc requests_ConnectionError); [by left | right].
  destruct (isinstance exc requests_HTTPError); [by left | right].
  destruct (isinstance exc requests_URLRequired); [by left | right].
  destruct (isinstance exc requests_TooManyRedirects); [by left | right].
  destruct (isinstance exc requests_Timeout); [by left | by right].
Qed.

(** Splits on [reraise exc] wherever a hypothesis speaks of it. *)
Ltac by_reraise :=
  match goal with
  | H : reraise ?exc = _ |- _ =>
      destruct (reraise_inv exc)
        as [(? & E) | [(? & ? & E) | [(? & ? & ? & E) | [(? & ? & ? & ? & E)
           | [(? & ? & ? & ? & ? & E) | (? & ? & ? & ? & ? & E)]]]]];
      rewrite E in H; simplify_eq
  end.


(** X2: [InvalidCEP] is raised only for a 200 response whose body has a
    status equal to 400 and exactly the message "CEP informado é inválido",
    and always then. *)
Theorem invalid_cep_iff requests_get cep timeout proxies :
  fetch_address requests_get cep timeout proxies
    = Raise (Classified exceptions.InvalidCEP) ↔
  ∃ resp m st,
    requests_get (URL_format cep) timeout proxies = Responded resp ∧
    status_code resp = 200 ∧ text resp = Some (JObj m) ∧
    m !! "status" = Some st ∧ eq_int st 400 = true ∧
    m !! "message" = Some (JStr "CEP informado é inválido").
Proof.
  rewrite fetch_address_path. split.
  - inversion 1; subst; try by_reraise. by eexists _, _, _.
  - intros (resp & m & st & -> & Hc & Ht & Hst & H400 & Hmsg).
    by eapply path_invalid.
Qed.

(** X3: [CEPNotFound] is raised only for a 200 response whose body has a
    status equal to 404, and always then. *)
Theorem cep_not_found_iff requests_get cep timeout proxies :
  fetch_address requests_get cep timeout proxies
    = Raise (Classified exceptions.CEPNotFound) ↔
  ∃ resp m st,
    requests_get (URL_format cep) timeout proxies = Responded resp ∧
    status_code resp = 200 ∧ text resp = Some (JObj m) ∧
    m !! "status" = Some st ∧ eq_int st 404 = true.
Proof.
  rewrite fetch_address_path. split.
  - inversion 1; subst; try by_reraise. by eexists _, _, _.
  - intros (resp & m & st & -> & Hc & Ht & Hst & H404).
    by eapply path_not_found.
Qed.

(** X4: the base error [BrazilCEPException] is raised only for a response
    whose status code is neither 200 nor 429, and its message is then
    "Other error. Status code: " followed by that code; no body content
    leads to it. *)
Theorem base_error_iff requests_get cep timeout proxies msg :
  fetch_address requests_get cep timeout proxies
    = Raise (Classified (exceptions.BrazilCEPException msg)) ↔
  ∃ resp,
    requests_get (URL_format cep) timeout proxies = Responded resp ∧
    status_code resp ≠ 200 ∧ status_code resp ≠ 429 ∧
    msg = "Other error. Status code: " +:+ str_int (status_code resp).
Proof.
  rewrite fetch_address_path. split.
  - inversion 1; subst; try by_reraise. by eexists.
  - intros (resp & -> & H200 & H429 & ->). by apply path_other.
Qed.

Lemma caught_none (exc : transport_exc) :
  (∀ cls, cls ∈ caught_classes → isinstance exc cls = false) ↔
  isinstance exc requests_ConnectionError = false ∧
  isinstance exc requests_HTTPError = false ∧
  isinstance exc requests_URLRequired = false ∧
  isinstance exc requests_TooManyRedirects = false ∧
  isinstance exc requests_Timeout = false.
Proof.
  unfold caught_classes. split.
  - intros H. repeat split; apply H; set_solver.
  - intros (H1 & H2 & H3 & H4 & H5) cls Hcls.
    repeat (apply elem_of_cons in Hcls as [-> | Hcls]); try done.
    by apply elem_of_nil in Hcls.
Qed.

(** X5: a transport exception reaches the caller unwrapped exactly when it
    is an instance of none of the five classes the [except] clauses name;
    what propagates is the original exception. *)
Theorem uncaught_iff requests_get cep timeout proxies exc :
  fetch_address requests_get cep timeout proxies = Raise (Uncaught exc) ↔
  requests_get (URL_format cep) timeout proxies = Failed exc ∧
  ∀ cls, cls ∈ caught_classes → isinstance exc cls = false.
Proof.
  rewrite fetch_address_path, caught_none. split.
  - inversion 1; subst. by_reraise. done.
  - intros (-> & H1 & H2 & H3 & H4 & H5).
    replace (Uncaught exc) with (reraise exc); [apply path_failed |].
    unfold reraise. by rewrite H1, H2, H3, H4, H5.
Qed.

(** X6: each of the five wrapping errors is raised only for a transport
    failure, wraps that very failure, and is chosen by the first [except]
    clause that matches it. *)
Theorem wrapped_error_iff requests_get cep timeout proxies exc :
  (fetch_address requests_get cep timeout proxies
     = Raise (Classified (exceptions.ConnectionError exc)) ↔
   requests_get (URL_format cep) timeout proxies = Failed exc ∧
   isinstance exc requests_ConnectionError = true) ∧
  (fetch_address requests_get cep timeout proxies
     = Raise (Classified (exceptions.HTTPError exc)) ↔
   requests_get (URL_format cep) timeout proxies = Failed exc ∧
   isinstance exc requests_ConnectionError = false ∧
   isinstance exc requests_HTTPError = true) ∧
  (fetch_address requests_get cep timeout proxies
     = Raise (Classified (exceptions.URLRequired exc)) ↔
   requests_get (URL_format cep) timeout proxies = Failed exc ∧
   isinstance exc requests_ConnectionError = false ∧
   isinstance exc requests_HTTPError = false ∧
   isinstance exc requests_URLRequired = true) ∧
  (fetch_address requests_get cep timeout proxies
     = Raise (Classified (exceptions.TooManyRedirects exc)) ↔
   requests_get (URL_format cep) timeout proxies = Failed exc ∧
   isinstance exc requests_ConnectionError = false ∧
   isinstance exc requests_HTTPError = false ∧
   isinstance exc requests_URLRequired = false ∧
   isinstance exc requests_TooManyRedirects = true) ∧
  (fetch_address requests_get cep timeout proxies
     = Raise (Classified (exceptions.Timeout exc)) ↔
   requests_get (URL_format cep) timeout proxies = Failed exc ∧
   isinstance exc requests_ConnectionError = false ∧
   isinstance exc requests_HTTPError = false ∧
   isinstance exc requests_URLRequired = false ∧
   isinstance exc requests_TooManyRedirects = false ∧
   isinstance exc requests_Timeout = true).
Proof.
  rewrite !fetch_address_path.
  split_and!; (split; [inversion 1; subst; by_reraise; done |]);
    intros H; destruct_and!;
    match goal with
    | Hget : _ = Failed _ |- _ => rewrite Hget
    end;
    match goal with
    | |- path _ (Raise ?e) =>
        replace e with (reraise exc); [apply path_failed |]
    end;
    unfold reraise;
    repeat match goal with
           | Hi : isinstance _ _ = _ |- _ => rewrite Hi; clear Hi
           end;
    done.
Qed.


(** X8: [TypeError] reaches the caller exactly when the body of a 200
    response is JSON but not an object (null, a boolean, a number, a string
    or a list). *)
Theorem type_error_iff requests_get cep timeout proxies :
  fetch_address requests_get cep timeout proxies = Raise TypeError ↔
  ∃ resp v,
    requests_get (URL_format cep) timeout proxies = Responded resp ∧
    status_code resp = 200 ∧ text resp = Some v ∧ ∀ m, v ≠ JObj m.
Proof.
  rewrite fetch_address_path. split.
  - inversion 1; subst; try by_reraise. by eexists _, _.
  - intros (resp & v & -> & Hc & Ht & Hv). by eapply path_not_dict.
Qed.

(** X9: [KeyError] reaches the caller exactly in two cases, both for the
    object body of a 200 response: the key is "status" and the body has no
    status, or the key is "message" and the body has a status equal to 400
    but no message.  No other key is ever looked up without a default. *)
Theorem key_error_iff requests_get cep timeout proxies key :
  fetch_address requests_get cep timeout proxies = Raise (KeyError key) ↔
  ∃ resp m,
    requests_get (URL_format cep) timeout proxies = Responded resp ∧
    status_code resp = 200 ∧ text resp = Some (JObj m) ∧
    ((key = "status" ∧ m !! "status" = None) ∨
     (key = "message" ∧
      ∃ st, m !! "status" = Some st ∧ eq_int st 400 = true ∧
        m !! "message" = None)).
Proof.
  rewrite fetch_address_path. split.
  - inversion 1; subst; try by_reraise.
    + eexists _, _. repeat split; try done. by left.
    + eexists _, _. repeat split; try done. right. split; [done |]. by eexists.
  - intros (resp & m & -> & Hc & Ht & [[-> Hst] | [-> (st & Hst & H400 & Hm)]]).
    + by eapply path_no_status.
    + by eapply path_no_message.
Qed.

(** X10: [AttributeError] reaches the caller exactly when a body that would
    otherwise give a record has an address that is truthy and not a
    string. *)
Theorem attribute_error_iff requests_get cep timeout proxies :
  fetch_address requests_get cep timeout proxies = Raise AttributeError ↔
  ∃ resp m st,
    requests_get (URL_format cep) timeout proxies = Responded resp ∧
    status_code resp = 200 ∧ text resp = Some (JObj m) ∧
    m !! "status" = Some st ∧ eq_int st 404 = false ∧
    (eq_int st 400 = true →
     ∃ msg, m !! "message" = Some msg ∧
       msg ≠ JStr "CEP informado é inválido" ∧
       msg ≠ JStr "Blocked by flood") ∧
    address_splits m = false.
Proof.
  rewrite fetch_address_path. split.
  - inversion 1; subst; try by_reraise. by eexists _, _, _.
  - intros (resp & m & st & -> & Hc & Ht & Hst & H404 & H400 & Hsplit).
    by eapply path_bad_address.
Qed.

(** ** What the record holds *)

Lemma or_falsy (v : json) : truthy v = false → or_ v (JStr "") = JStr "".
Proof. unfold or_. by intros ->. Qed.

(** X12: in every returned record, each of district, cep, city and uf is
    the upstream value itself when that value is truthy, whatever its JSON
    type, and the empty string when it is present but falsy (zero, false,
    an empty string, list or object). *)
Theorem copied_fields_or requests_get cep timeout proxies resp m r :
  requests_get (URL_format cep) timeout proxies = Responded resp →
  text resp = Some (JObj m) →
  fetch_address requests_get cep timeout proxies = Ok r →
  ∀ k k' v, (k, k') ∈ copied_fields → m !! k = Some v →
    r !! k' = Some (if truthy v then v else JStr "").
Proof.
  intros Hget Ht Hr k k' v Hk Hv.
  destruct (fetch_address_Ok _ _ _ _ _ Hr)
    as (resp' & m' & st & street & Hget' & _ & Ht' & _ & Hs & ->).
  rewrite (responded_inj _ _ _ _ _ _ _ _ Hget Ht Hget' Ht') in *.
  destruct (record_with_lookup m street) as (Hd & Hc & Hci & _ & Hu & _).
  unfold copied_fields in Hk.
  repeat (apply elem_of_cons in Hk as [[= -> ->] | Hk]);
    [| | | | by apply elem_of_nil in Hk];
    rewrite ?Hd, ?Hc, ?Hci, ?Hu, Hv; done.
Qed.

Lemma copied_fields_or_witness :
  record_with text_status_fields "" !! "district" = Some (JInt 7) ∧
  record_with text_status_fields "" !! "city" = Some (JStr "").
Proof.
  pose proof (copied_fields_or
    (always (answer 200 (JObj text_status_fields))) "01001000" None None
    {| status_code := 200; text := Some (JObj text_status_fields) |}
    text_status_fields (record_with text_status_fields "")
    eq_refl eq_refl eq_refl) as H.
  split.
  - apply (H "district" "district" (JInt 7)); [| reflexivity].
    unfold copied_fields. apply elem_of_cons. by left.
  - apply (H "city" "city" (JInt 0)); [| reflexivity].
    unfold copied_fields. do 2 (apply elem_of_cons; right).
    apply elem_of_cons. by left.
Defined.

(** ** The street *)

Lemma not_contains_short (sep s : string) :
  (String.length s < String.length sep)%nat → ¬ contains sep s.
Proof.
  intros Hlen (a & b & ->). rewrite !length_append in Hlen. lia.
Qed.

(** A separator either does not occur or has a first occurrence. *)
Lemma first_or_absent (sep s : string) :
  sep ≠ "" → ¬ contains sep s ∨ ∃ pre, first_at sep pre s.
Proof.
  intros Hsep. induction s as [|c s IH].
  - left. apply not_contains_short. destruct sep; [done | simpl; lia].
  - destruct (String.prefix sep (String c s)) eqn:Hp.
    { right. exists "". apply prefix_true in Hp as [t Ht]. split.
      - by exists t.
      - intros a b _. simpl. lia. }
    assert (∀ a b, String c s = a +:+ sep +:+ b →
              ∃ a', a = String c a' ∧ s = a' +:+ sep +:+ b) as Htail.
    { intros [|x a] b Hab.
      - change ("" +:+ sep +:+ b) with (sep +:+ b) in Hab.
        rewrite Hab, prefix_append in Hp. done.
      - rewrite append_cons in Hab. injection Hab as -> ->. by exists a. }
    destruct IH as [Hno | [pre [[post Hpost] Hmin]]].
    + left. intros (a & b & Hab).
      destruct (Htail a b Hab) as (a' & -> & Hs). apply Hno. by exists a', b.
    + right. exists (String c pre). split.
      * exists post. by rewrite append_cons, <- Hpost.
      * intros a b Hab. destruct (Htail a b Hab) as (a' & -> & Hs).
        specialize (Hmin a' b Hs). simpl. lia.
Qed.

Lemma first_at_no_marker (sep pre s : string) :
  sep ≠ "" → first_at sep pre s → ¬ contains sep pre.
Proof.
  intros Hsep [[post ->] Hmin] (a & b & ->).
  specialize (Hmin a (b +:+ sep +:+ post)).
  rewrite !append_assoc in Hmin. specialize (Hmin eq_refl).
  rewrite !length_append in Hmin.
  destruct sep; [done | simpl in Hmin; lia].
Qed.

(** The street of an address text: a prefix of it without the marker. *)
Lemma street_of_prefix (m : gmap string json) (a street : string) :
  m !! "address" = Some (JStr a) → street_of m = Ok street →
  (∃ rest, a = street +:+ rest) ∧ ¬ contains " - até" street.
Proof.
  intros Ha Hs.
  destruct (first_or_absent " - até" a) as [Hno | [pre Hfirst]]; [done | |].
  - rewrite (street_of_absent m a Ha Hno) in Hs. injection Hs as <-.
    split; [| done]. exists "". by rewrite append_nil_r.
  - rewrite (street_of_first m a pre Ha Hfirst) in Hs. injection Hs as <-.
    split; [| by eapply first_at_no_marker].
    destruct Hfirst as [[post ->] _]. by eexists.
Qed.

Lemma street_of_no_marker (m : gmap string json) (street : string) :
  street_of m = Ok street → ¬ contains " - até" street.
Proof.
  intros Hs. destruct (m !! "address") as [v|] eqn:Ha; last first.
  { rewrite street_of_missing in Hs by (by left). injection Hs as <-.
    by apply not_contains_short; simpl; lia. }
  destruct v as [|b|n|f|a|l|o];
    try (by eapply street_of_prefix);
    unfold street_of, or_ in Hs; rewrite Ha in Hs; simpl in Hs;
    repeat case_match; vm_compute in Hs; simplify_eq;
    apply not_contains_short; simpl; lia.
Qed.

Lemma street_of_falsy (m : gmap string json) (v : json) :
  m !! "address" = Some v → truthy v = false → street_of m = Ok "".
Proof.
  intros Ha Hv. unfold street_of. rewrite Ha. simpl. by rewrite or_falsy.
Qed.

(** X13: in every returned record the street is a string that does not
    contain the marker " - até"; it is a prefix of the upstream address when
    that is a string, and the empty string when the address is present but
    falsy (zero, false, an empty list or object). *)
Theorem street_prefix_without_marker requests_get cep timeout proxies resp m r :
  requests_get (URL_format cep) timeout proxies = Responded resp →
  text resp = Some (JObj m) →
  fetch_address requests_get cep timeout proxies = Ok r →
  ∃ street, r !! "street" = Some (JStr street) ∧
    ¬ contains " - até" street ∧
    (∀ a, m !! "address" = Some (JStr a) → ∃ rest, a = street +:+ rest) ∧
    (∀ v, m !! "address" = Some v → truthy v = false → street = "").
Proof.
  intros Hget Ht Hr.
  destruct (fetch_address_Ok _ _ _ _ _ Hr)
    as (resp' & m' & st & street & Hget' & _ & Ht' & _ & Hs & ->).
  rewrite (responded_inj _ _ _ _ _ _ _ _ Hget Ht Hget' Ht') in *.
  destruct (record_with_lookup m street) as (_ & _ & _ & Hst & _).
  exists street. split; [done |].
  split; [by eapply street_of_no_marker |]. split.
  - intros a Ha. by destruct (street_of_prefix m a street Ha Hs).
  - intros v Ha Hv. rewrite (street_of_falsy m v Ha Hv) in Hs. congruence.
Qed.

Lemma street_prefix_without_marker_witness :
  ∃ street, sample_record !! "street" = Some (JStr street) ∧
    ¬ contains " - até" street ∧
    (∀ a, sample_fields !! "address" = Some (JStr a) →
       ∃ rest, a = street +:+ rest) ∧
    (∀ v, sample_fields !! "address" = Some v → truthy v = false →
       street = "").
Proof.
  apply (street_prefix_without_marker
           (always (answer 200 sample_body)) "01001000" None None
           {| status_code := 200; text := Some sample_body |});
    reflexivity.
Defined.

(** X14: cutting is stable: when the street of a returned record is sent
    back as the address of another body, the record returned for that body
    has the same street. *)
Theorem street_stable requests_get cep timeout proxies r
    requests_get' cep' timeout' proxies' resp' m' r' :
  fetch_address requests_get cep timeout proxies = Ok r →
  requests_get' (URL_format cep') timeout' proxies' = Responded resp' →
  text resp' = Some (JObj m') →
  fetch_address requests_get' cep' timeout' proxies' = Ok r' →
  m' !! "address" = r !! "street" →
  r' !! "street" = r !! "street".
Proof.
  intros Hr Hget' Ht' Hr' Ha.
  destruct (fetch_address_Ok _ _ _ _ _ Hr)
    as (resp & m & st & street & _ & _ & _ & _ & Hs & ->).
  destruct (fetch_address_Ok _ _ _ _ _ Hr')
    as (resp2 & m2 & st2 & street2 & Hget2 & _ & Ht2 & _ & Hs2 & ->).
  rewrite (responded_inj _ _ _ _ _ _ _ _ Hget' Ht' Hget2 Ht2) in *.
  destruct (record_with_lookup m street) as (_ & _ & _ & Hst & _).
  destruct (record_with_lookup m' street2) as (_ & _ & _ & Hst2 & _).
  rewrite Hst in Ha |- *. rewrite Hst2.
  rewrite (street_of_absent m' street Ha) in Hs2
    by (by eapply street_of_no_marker).
  congruence.
Qed.

Lemma street_stable_witness :
  record_with cut_fields "Rua X" !! "street" = sample_record !! "street".
Proof.
  apply (street_stable
           (always (answer 200 sample_body)) "01001000" None None sample_record
           (always (answer 200 (JObj cut_fields))) "01001000" None None
           {| status_code := 200; text := Some (JObj cut_fields) |}
           cut_fields (record_with cut_fields "Rua X"));
    reflexivity.
Defined.

(** X15: the status is compared as a number: a status that is not a JSON
    number (a string such as "404", null, a boolean, a list or an object)
    is never classified as an error, and a body carrying it gives a record
    when its address can be split. *)
Theorem text_status_is_success requests_get cep timeout proxies resp m st :
  requests_get (URL_format cep) timeout proxies = Responded resp →
  status_code resp = 200 → text resp = Some (JObj m) →
  m !! "status" = Some st →
  (∀ n, st ≠ JInt n) → (∀ f, st ≠ JFloat f) →
  address_splits m = true →
  ∃ street, street_of m = Ok street ∧
    fetch_address requests_get cep timeout proxies = Ok (record_with m street).
Proof.
  intros Hget Hc Ht Hst Hint Hfloat Hsplit.
  assert (∀ k, k ≠ 0 → k ≠ 1 → eq_int st k = false) as Hne.
  { intros k H0 H1. destruct st as [|b|n|f| | |]; simpl; try done.
    - destruct b; apply Z.eqb_neq; lia.
    - by destruct (Hint n).
    - by destruct (Hfloat f). }
  apply (fetch_address_success _ _ _ _ resp m st); try done.
  - by apply Hne.
  - rewrite (Hne 400) by done. done.
Qed.

Lemma text_status_is_success_witness :
  ∃ street, street_of text_status_fields = Ok street ∧
    fetch_address (always (answer 200 (JObj text_status_fields)))
      "01001000" None None
    = Ok (record_with text_status_fields street).
Proof.
  apply (text_status_is_success _ _ _ _
           {| status_code := 200; text := Some (JObj text_status_fields) |}
           text_status_fields (JStr "404"));
    try reflexivity; discriminate.
Defined.

(** ** The request *)

Lemma append_inj_r (a b c : string) : a +:+ c = b +:+ c → a = b.
Proof.
  revert b; induction a as [|x a IH]; intros [|y b] H.
  - done.
  - apply (f_equal String.length) in H.
    rewrite !length_append in H. simpl in H. lia.
  - apply (f_equal String.length) in H.
    rewrite !length_append in H. simpl in H. lia.
  - rewrite !append_cons in H. injection H as -> H. by rewrite (IH b H).
Qed.

(** X16: the URL requested determines the postal code: two codes that give
    the same URL are the same code, so distinct codes are never looked up
    at one address. *)
Theorem URL_format_inj (cep cep' : string) :
  URL_format cep = URL_format cep' → cep = cep'.
Proof.
  unfold URL_format. intros H.
  apply (inj (String.append _)) in H. by apply append_inj_r in H.
Qed.

Lemma URL_format_inj_witness : "01001000" = "01001000".
Proof. apply (URL_format_inj "01001000" "01001000"). reflexivity. Defined.

(** X17: a returned record has the six keys and no other, whatever else the
    body carried: the status and message of the body are not copied. *)
Theorem returned_keys requests_get cep timeout proxies r :
  fetch_address requests_get cep timeout proxies = Ok r →
  dom r = record_keys ∧ r !! "status" = None ∧ r !! "message" = None.
Proof.
  intros Hr.
  destruct (fetch_address_Ok _ _ _ _ _ Hr)
    as (resp & m & st & street & _ & _ & _ & _ & _ & ->).
  split; [apply record_with_dom |].
  unfold record_with. split; by simplify_map_eq.
Qed.

Lemma returned_keys_witness :
  dom sample_record = record_keys ∧
  sample_record !! "status" = None ∧ sample_record !! "message" = None.
Proof.
  apply (returned_keys (always (answer 200 sample_body)) "01001000" None None).
  reflexivity.
Defined.
